(** * The Command pattern editor of [command.cpp]

    A shallow embedding of the receiver ([Editor]), the six concrete
    commands, the [CommandHistory] stack and the [Application] loop, with
    the properties of the command / undo-history mechanism proved about
    them. *)

From Equations Require Import Equations.
From Stdlib Require Import List Arith Lia Bool Ascii String.
Import ListNotations.
Local Open Scope string_scope.
Local Open Scope list_scope.

(** ** Characters and the whitespace of stream extraction

    [iss >> token] skips and stops at the characters for which [isspace]
    holds in the stream's locale.  The stream is built with the global C++
    locale, which the program never replaces ([setlocale] changes the C
    locale only), so this is the classic table: HT, LF, VT, FF, CR and the
    space. *)

Definition isspace (c : ascii) : bool :=
  let n := nat_of_ascii c in
  ((9 <=? n)%nat && (n <=? 13)%nat) || (n =? 32)%nat.

(** ** [operator>>(istream&, string&)] on an [istringstream]

    The stream is its unread characters.  The sentry skips leading
    whitespace; then characters are stored until whitespace or the end. A
    read that stores no character sets failbit, which ends the loop of
    [TokenizeInput]. *)

Fixpoint skipws (s : string) : string :=
  match s with
  | EmptyString => EmptyString
  | String c s' => if isspace c then skipws s' else s
  end.

Fixpoint read_word (s : string) : string * string :=
  match s with
  | EmptyString => (EmptyString, EmptyString)
  | String c s' =>
      if isspace c then (EmptyString, s)
      else let (w, rest) := read_word s' in (String c w, rest)
  end.

(** [extract iss] is [iss >> token]: [None] when the extraction fails,
    otherwise the token and the stream after it. *)
Definition extract (iss : string) : option (string * string) :=
  match read_word (skipws iss) with
  | (EmptyString, _) => None
  | (token, rest) => Some (token, rest)
  end.

Definition inspect {A : Type} (a : A) : {b : A | a = b} := exist _ a eq_refl.

(** The loop [while (iss >> token) tokens.push_back(token);] of
    [TokenizeInput], as the tokens it appends. *)
Equations? tokens_of (iss : string) : list string by wf (String.length iss) lt :=
  tokens_of iss with inspect (extract iss) => {
    | exist _ None _ := [];
    | exist _ (Some (token, rest)) Heq := token :: tokens_of rest }.
Proof.
  assert (Hskip : forall s, String.length (skipws s) <= String.length s).
  { induction s as [|c s IH]; simpl; [lia|].
    destruct (isspace c); simpl; lia. }
  assert (Hread : forall s,
             String.length (snd (read_word s)) <= String.length s).
  { induction s as [|c s IH]; simpl; [lia|].
    destruct (isspace c); simpl; [lia|].
    destruct (read_word s) as [w r]; simpl in *; lia. }
  unfold extract in Heq. specialize (Hskip iss).
  destruct (skipws iss) as [|c s'] eqn:E; simpl in Heq; [discriminate|].
  destruct (isspace c); [discriminate|].
  specialize (Hread s').
  destruct (read_word s') as [w r]; simpl in *.
  inversion Heq; subst. lia.
Qed.

(** ** Objects and the state of the process *)

(** The receiver: [class Editor], with its two data members. *)
Record Editor := mkEditor {
  filepath : string;
  filecontent : string }.

(** A member function of the receiver entered by the program, with its
    argument.  The sequence of these is kept beside the console text, since
    the placeholder bodies print a text that does not show the argument. *)
Inductive Call :=
| CallSave
| CallSaveAs (newpath : string)
| CallOpen (path : string)
| CallPrint
| CallClose
| CallRevert
| CallCreateNew
| CallCloneRepository (repositoryurl : string)
| CallSetPath (path : string)
| CallGetPath.

(** An object of one of the six classes derived from [Command], with its
    data members.  Every command of the program is built with [&editor], the
    one [Editor] of the [Application], so the [Editor*] member is that
    receiver and is not kept as a field. *)
Inductive Command :=
| SaveCommand
| SaveAsCommand (oldpath newpath : string)
| OpenCommand (path : string)
| PrintCommand
| CloseCommand
| NewCommand.

(** A [Command*]: the position of the object among those made by [new]. *)
Definition ptr := nat.

Record Process := mkProcess {
  editor : Editor;             (* Application::editor *)
  commandhistory : list ptr;   (* Application::commandhistory.commands *)
  heap : list Command;         (* objects made by new; none is deleted *)
  cin : list string;           (* the lines not read yet *)
  cout : string;               (* the characters written so far *)
  calls : list Call            (* receiver calls so far, oldest first *)
}.

(** ** Computations: state passing, with undefined behaviour as a result *)

Inductive Outcome (A : Type) :=
| Ok (a : A) (s : Process)
| Undefined.
Arguments Ok {A} a s.
Arguments Undefined {A}.

Definition M (A : Type) := Process -> Outcome A.

Definition ret {A} (a : A) : M A := fun s => Ok a s.

Definition bind {A B} (m : M A) (k : A -> M B) : M B :=
  fun s => match m s with
           | Ok a s' => k a s'
           | Undefined => Undefined
           end.

Definition undefined {A} : M A := fun _ => Undefined.

Declare Scope cmd_scope.
Delimit Scope cmd_scope with cmd.
Notation "x <- m ;; k" := (bind m (fun x => k))
  (at level 61, m at next level, right associativity) : cmd_scope.
Notation "m ;; k" := (bind m (fun _ => k))
  (at level 61, right associativity) : cmd_scope.
Local Open Scope cmd_scope.

Definition LF : string := String (ascii_of_nat 10) EmptyString.

(** [cout << text] *)
Definition print (text : string) : M unit :=
  fun s => Ok tt (mkProcess (editor s) (commandhistory s) (heap s) (cin s)
                            (cout s ++ text) (calls s)).

Definition enter (c : Call) : M unit :=
  fun s => Ok tt (mkProcess (editor s) (commandhistory s) (heap s) (cin s)
                            (cout s) (calls s ++ [c])).

(** [getline(cin, input)]: the next line without its newline; at the end of
    the input nothing is stored and [input] stays empty. *)
Definition getline : M string :=
  fun s => match cin s with
           | [] => Ok EmptyString s
           | line :: rest =>
               Ok line (mkProcess (editor s) (commandhistory s) (heap s) rest
                                  (cout s) (calls s))
           end.

(** [new C(...)]: the object is added behind the others. *)
Definition new (c : Command) : M ptr :=
  fun s => Ok (List.length (heap s))
              (mkProcess (editor s) (commandhistory s) (heap s ++ [c]) (cin s)
                         (cout s) (calls s)).

(** [*command], for a call through the pointer. *)
Definition deref (p : ptr) : M Command :=
  fun s => match nth_error (heap s) p with
           | Some c => Ok c s
           | None => Undefined
           end.

(** ** The receiver *)

Module Editor.

Definition Save : M unit :=
  enter CallSave ;;
  print ("Реализация сохранения файла" ++ LF).

Definition SaveAs (newpath : string) : M unit :=
  enter (CallSaveAs newpath) ;;
  print ("Реализация сохранения файла по новому пути" ++ LF).

Definition Open (path : string) : M unit :=
  enter (CallOpen path) ;;
  print ("Реализация открытия файла" ++ LF).

Definition Print : M unit :=
  enter CallPrint ;;
  print ("Реализация печати файла" ++ LF).

Definition Close : M unit :=
  enter CallClose ;;
  print ("Реализация закрытия файла" ++ LF).

Definition Revert : M unit :=
  enter CallRevert ;;
  print ("Реализация отката последнего изменения" ++ LF).

Definition CreateNew : M unit :=
  enter CallCreateNew ;;
  print ("Реализация создания нового файла" ++ LF).

Definition CloneRepository (repositoryurl : string) : M unit :=
  enter (CallCloneRepository repositoryurl) ;;
  print ("Реализация клонирования репозитория" ++ LF).

Definition SetPath (path : string) : M unit :=
  enter (CallSetPath path) ;;
  fun s => Ok tt (mkProcess (mkEditor path (filecontent (editor s)))
                            (commandhistory s) (heap s) (cin s)
                            (cout s) (calls s)).

Definition GetPath : M string :=
  enter CallGetPath ;;
  fun s => Ok (filepath (editor s)) s.

End Editor.

(** ** The concrete commands *)

(** The constructors.  Only [SaveAsCommand] reads the receiver: its
    [oldpath] member is initialised with [editor->GetPath()]. *)
Definition SaveCommand_new : M ptr := new SaveCommand.

Definition SaveAsCommand_new (newpath : string) : M ptr :=
  oldpath <- Editor.GetPath ;;
  new (SaveAsCommand oldpath newpath).

Definition OpenCommand_new (path : string) : M ptr := new (OpenCommand path).
Definition PrintCommand_new : M ptr := new PrintCommand.
Definition CloseCommand_new : M ptr := new CloseCommand.
Definition NewCommand_new : M ptr := new NewCommand.

(** The overriders of [Command::Execute] and [Command::Undo], chosen by the
    class of the object. *)
Definition Execute (c : Command) : M unit :=
  match c with
  | SaveCommand => Editor.Save
  | SaveAsCommand _ newpath => Editor.SaveAs newpath
  | OpenCommand path => Editor.Open path
  | PrintCommand => Editor.Print
  | CloseCommand => Editor.Close
  | NewCommand => Editor.CreateNew
  end.

Definition Undo (c : Command) : M unit :=
  match c with
  | SaveCommand => Editor.Revert
  | SaveAsCommand oldpath _ => Editor.SetPath oldpath
  | OpenCommand _ => Editor.Close
  | PrintCommand => ret tt
  | CloseCommand => path <- Editor.GetPath ;; Editor.Open path
  | NewCommand => Editor.Close
  end.

(** [command->Execute()] and [command->Undo()] *)
Definition call_Execute (command : ptr) : M unit :=
  c <- deref command ;; Execute c.

Definition call_Undo (command : ptr) : M unit :=
  c <- deref command ;; Undo c.

(** ** The history *)

Module CommandHistory.

Definition set_commands (commands : list ptr) : M unit :=
  fun s => Ok tt (mkProcess (editor s) commands (heap s) (cin s)
                            (cout s) (calls s)).

Definition Push (command : ptr) : M unit :=
  fun s => set_commands (commandhistory s ++ [command]) s.

(** [back()] and [pop_back()] of an empty vector are undefined, and
    nothing in [Pop] tests for it. *)
Definition Pop : M ptr :=
  fun s => match rev (commandhistory s) with
           | [] => Undefined
           | command :: before =>
               (set_commands (rev before) ;; ret command) s
           end.

End CommandHistory.

(** ** The application *)

Module Application.

Definition TokenizeInput (input : string) : list string := tokens_of input.

(** [tokens[0]] and [args.erase(args.begin())]: both undefined on an
    empty vector. *)
Definition at0 (tokens : list string) : M string :=
  match tokens with
  | [] => undefined
  | t :: _ => ret t
  end.

Definition erase_begin (tokens : list string) : M (list string) :=
  match tokens with
  | [] => undefined
  | _ :: rest => ret rest
  end.

(** The result is [None] for [nullptr]. *)
Definition ParseInput (input : string) : M (option ptr) :=
  let tokens := TokenizeInput input in
  commandname <- at0 tokens ;;
  args <- erase_begin tokens ;;
  if commandname =? "save" then
    p <- SaveCommand_new ;; ret (Some p)
  else if commandname =? "saveas" then
    match args with
    | [] => print ("Пропущен аргумент: newpath" ++ LF) ;; ret None
    | arg0 :: _ => p <- SaveAsCommand_new arg0 ;; ret (Some p)
    end
  else if commandname =? "open" then
    match args with
    | [] => print ("Пропущен аргумент: filepath" ++ LF) ;; ret None
    | arg0 :: _ => p <- OpenCommand_new arg0 ;; ret (Some p)
    end
  else if commandname =? "print" then
    p <- PrintCommand_new ;; ret (Some p)
  else if commandname =? "close" then
    p <- CloseCommand_new ;; ret (Some p)
  else if commandname =? "new" then
    p <- NewCommand_new ;; ret (Some p)
  else
    ret None.

Definition prompt : string :=
  "Пожалуйста, введите команду. Например, open, save, saveas, close, print, new."
  ++ LF.

Definition not_recognized : string :=
  "Программа не может распознать команду :(" ++ LF.

(** The body of [while (true)] in [Run]. *)
Definition Run_body : M unit :=
  print prompt ;;
  input <- getline ;;
  command <- ParseInput input ;;
  match command with
  | Some p => call_Execute p ;; CommandHistory.Push p
  | None => print not_recognized
  end.

(** [Run] never returns; [Run n] is its first [n] turns of the loop. *)
Fixpoint Run (n : nat) : M unit :=
  match n with
  | 0 => ret tt
  | S n' => Run_body ;; Run n'
  end.

(** The process when [main] calls [app.Run()]: a default-constructed
    [Editor], an empty history, nothing allocated or written, and
    [lines] waiting on the standard input. *)
Definition start (lines : list string) : Process :=
  mkProcess (mkEditor EmptyString EmptyString) [] [] lines EmptyString [].

End Application.

(** * Vocabulary of the properties *)

(** ** Lines and tokens *)

Fixpoint all_space (s : string) : bool :=
  match s with
  | EmptyString => true
  | String c s' => isspace c && all_space s'
  end.

Fixpoint no_space (s : string) : bool :=
  match s with
  | EmptyString => true
  | String c s' => negb (isspace c) && no_space s'
  end.

(** What may follow a token: the end of the line or a whitespace. *)
Definition token_end (s : string) : bool :=
  match s with
  | EmptyString => true
  | String c _ => isspace c
  end.

(** ** The table of commands *)

(** The table of the specification: the receiver operation of [Execute],
    and those of [Undo], where [current] is the path of the receiver when
    [Undo] runs. *)
Definition table_Execute (c : Command) : Call :=
  match c with
  | SaveCommand => CallSave
  | SaveAsCommand _ newpath => CallSaveAs newpath
  | OpenCommand path => CallOpen path
  | PrintCommand => CallPrint
  | CloseCommand => CallClose
  | NewCommand => CallCreateNew
  end.

Definition table_Undo (c : Command) (current : string) : list Call :=
  match c with
  | SaveCommand => [CallRevert]
  | SaveAsCommand oldpath _ => [CallSetPath oldpath]
  | OpenCommand _ => [CallClose]
  | PrintCommand => []
  | CloseCommand => [CallGetPath; CallOpen current]
  | NewCommand => [CallClose]
  end.

(** The path of the receiver after [Undo], by the same table. *)
Definition path_after_Undo (c : Command) (current : string) : string :=
  match c with
  | SaveAsCommand oldpath _ => oldpath
  | _ => current
  end.

(** The text a placeholder body prints. *)
Definition text_of (c : Call) : string :=
  match c with
  | CallSave => "Реализация сохранения файла" ++ LF
  | CallSaveAs _ => "Реализация сохранения файла по новому пути" ++ LF
  | CallOpen _ => "Реализация открытия файла" ++ LF
  | CallPrint => "Реализация печати файла" ++ LF
  | CallClose => "Реализация закрытия файла" ++ LF
  | CallRevert => "Реализация отката последнего изменения" ++ LF
  | CallCreateNew => "Реализация создания нового файла" ++ LF
  | CallCloneRepository _ => "Реализация клонирования репозитория" ++ LF
  | CallSetPath _ => EmptyString
  | CallGetPath => EmptyString
  end.

(** ** The dispatch of a line *)

Definition recognized : list string :=
  ["save"; "saveas"; "open"; "print"; "close"; "new"].

Definition needs_argument (name : string) : bool :=
  (name =? "saveas") || (name =? "open").

(** The command of a recognized name, with [arg0] the first argument and
    [current] the path of the editor when the command is constructed. *)
Definition command_for (name arg0 current : string) : Command :=
  if name =? "save" then SaveCommand
  else if name =? "saveas" then SaveAsCommand current arg0
  else if name =? "open" then OpenCommand arg0
  else if name =? "print" then PrintCommand
  else if name =? "close" then CloseCommand
  else NewCommand.

(** The receiver calls of its constructor. *)
Definition constructor_calls (c : Command) : list Call :=
  match c with
  | SaveAsCommand _ _ => [CallGetPath]
  | _ => []
  end.

Definition missing_argument (name : string) : string :=
  "Пропущен аргумент: "
  ++ (if name =? "saveas" then "newpath" else "filepath") ++ LF.

(** The text asking for a command, which opens every turn, and the text
    for a line that gave no command: the characters the console is to
    receive, written out. *)
Definition asks_for_command : string :=
  "Пожалуйста, введите команду. Например, open, save, saveas, close, print, new."
  ++ String (ascii_of_nat 10) EmptyString.

Definition says_not_recognized : string :=
  "Программа не может распознать команду :("
  ++ String (ascii_of_nat 10) EmptyString.

(** ** Clients of the history *)

(** Popping the history and undoing the command it returns: what a client
    does to undo the last command.  The loop of [Run] never does it. *)
Definition undo_last : M unit :=
  command <- CommandHistory.Pop ;; call_Undo command.

(** What can happen between the construction of a command and its undo. *)
Inductive Action :=
| Turn                              (* one turn of the loop of Run *)
| DoExecute (command : ptr)
| DoUndo (command : ptr)
| DoPush (command : ptr)
| DoPop
| DoUndoLast
| DoSaveAs (newpath : string)       (* new SaveAsCommand(&editor, newpath) *)
| DoSetPath (path : string).

Definition perform (a : Action) : M unit :=
  match a with
  | Turn => Application.Run_body
  | DoExecute command => call_Execute command
  | DoUndo command => call_Undo command
  | DoPush command => CommandHistory.Push command
  | DoPop => _ <- CommandHistory.Pop ;; ret tt
  | DoUndoLast => undo_last
  | DoSaveAs newpath => _ <- SaveAsCommand_new newpath ;; ret tt
  | DoSetPath path => Editor.SetPath path
  end.

Fixpoint perform_all (l : list Action) : M unit :=
  match l with
  | [] => ret tt
  | a :: l' => perform a ;; perform_all l'
  end.

(** No object made by [new] is deleted or changed: a computation keeps the
    objects there are and may add some behind them. *)
Definition keeps_objects {A} (m : M A) : Prop :=
  forall s a s', m s = Ok a s' -> exists more, heap s' = heap s ++ more.

(** ** Two runs *)

(** The three lines of the scenario, given to a fresh application. *)
Definition scenario : Process :=
  Application.start ["open a.txt"; "saveas b.txt"; "close"].

(** A SaveAs command made when the path is [a.txt], and what is done
    before it is undone. *)
Definition restore_start : Process :=
  mkProcess (mkEditor "a.txt" EmptyString) [] [] ["close"] EmptyString [].

Definition restore_later : list Action :=
  [DoSetPath "z.txt"; Turn; DoSaveAs "c.txt"; DoUndoLast; DoUndo 2;
   DoSetPath "q.txt"].

Definition restore_state : Process :=
  Eval vm_compute in
    match perform_all restore_later
            (mkProcess (mkEditor "a.txt" EmptyString) [] [SaveAsCommand "a.txt" "b.txt"]
                       ["close"] EmptyString [CallGetPath]) with
    | Ok _ s => s
    | Undefined => restore_start
    end.

(** The state after the three turns of the scenario. *)
Definition scenario_end : Process :=
  Eval vm_compute in
    match Application.Run 3 scenario with
    | Ok _ s => s
    | Undefined => scenario
    end.

(** A Print command made by a client before a turn of the loop and an undo
    of the last command. *)
Definition persist_later : list Action := [Turn; DoUndoLast].

Definition persist_state : Process :=
  Eval vm_compute in
    match (_ <- new PrintCommand ;; perform_all persist_later)
            (Application.start ["close"]) with
    | Ok _ s => s
    | Undefined => Application.start ["close"]
    end.

(** ** Tokens, runs of the loop and unwinding *)

(** A token as the extraction stores it: not empty, no whitespace in it. *)
Definition token_ok (t : string) : bool :=
  negb (t =? EmptyString) && no_space t.

(** The characters of a line that are not whitespace, in their order. *)
Fixpoint strip (s : string) : string :=
  match s with
  | EmptyString => EmptyString
  | String c s' => if isspace c then strip s' else String c (strip s')
  end.

(** The tokens written one after the other. *)
Definition glue (tokens : list string) : string :=
  fold_right String.append EmptyString tokens.

(** The receiver operations that [Execute] and the constructors reach; the
    others are reached from [Undo] only, or from nowhere. *)
Definition loop_call (c : Call) : bool :=
  match c with
  | CallSetPath _ | CallRevert | CallCloneRepository _ => false
  | _ => true
  end.

(** The history lists every object, oldest first. *)
Definition in_sync (s : Process) : Prop :=
  commandhistory s = seq 0 (List.length (heap s)).

(** Every SaveAs object holds, as [oldpath], the path the editor has now. *)
Definition records_current (s : Process) : Prop :=
  forall oldpath newpath,
    In (SaveAsCommand oldpath newpath) (heap s) ->
    oldpath = filepath (editor s).

(** Every pointer of the history denotes an object. *)
Definition history_valid (s : Process) : Prop :=
  Forall (fun p => p < List.length (heap s)) (commandhistory s).

(** Undoing the last [k] commands of the history. *)
Fixpoint undo_times (k : nat) : M unit :=
  match k with
  | 0 => ret tt
  | S k' => undo_last ;; undo_times k'
  end.

(** * Properties *)

(** ** The tokenizer *)

Lemma tokens_of_step (iss : string) :
  tokens_of iss =
  match extract iss with
  | None => []
  | Some (token, rest) => token :: tokens_of rest
  end.
Proof.
  funelim (tokens_of iss);
    match goal with E : extract _ = _ |- _ => rewrite E end; reflexivity.
Qed.

Lemma skipws_all_space (s : string) :
  skipws s = EmptyString <-> all_space s = true.
Proof.
  induction s as [|c s IH]; simpl; [tauto|].
  destruct (isspace c); simpl; [exact IH|].
  split; discriminate.
Qed.

Lemma skipws_app (w s : string) :
  all_space w = true -> skipws (w ++ s) = skipws s.
Proof.
  induction w as [|c w IH]; simpl; intros H; [reflexivity|].
  apply andb_prop in H. destruct H as [Hc Hw].
  rewrite Hc. auto.
Qed.

Lemma skipws_token (c : ascii) (s : string) :
  isspace c = false -> skipws (String c s) = String c s.
Proof. simpl. intros ->. reflexivity. Qed.

Lemma read_word_app (t rest : string) :
  no_space t = true -> token_end rest = true ->
  read_word (t ++ rest) = (t, rest).
Proof.
  induction t as [|c t IH]; simpl; intros Ht Hr.
  - destruct rest as [|c r]; simpl in *; [reflexivity|].
    rewrite Hr. reflexivity.
  - apply andb_prop in Ht. destruct Ht as [Hc Ht].
    apply negb_true_iff in Hc. rewrite Hc, (IH Ht Hr). reflexivity.
Qed.

Lemma extract_none (iss : string) :
  extract iss = None <-> all_space iss = true.
Proof.
  unfold extract. rewrite <- skipws_all_space.
  destruct (skipws iss) as [|c s'] eqn:E; simpl.
  - tauto.
  - assert (Hc : isspace c = false).
    { clear -E. induction iss as [|d iss IH]; simpl in E; [discriminate|].
      destruct (isspace d) eqn:Hd; [auto|]. inversion E; subst. exact Hd. }
    rewrite Hc. destruct (read_word s'). split; discriminate.
Qed.

Lemma extract_token (w : string) (c : ascii) (t rest : string) :
  all_space w = true -> no_space (String c t) = true ->
  token_end rest = true ->
  extract (w ++ String c t ++ rest) = Some (String c t, rest).
Proof.
  intros Hw Ht Hr. unfold extract.
  rewrite (skipws_app _ _ Hw).
  change (String c t ++ rest)%string with (String c (t ++ rest)).
  simpl in Ht. apply andb_prop in Ht. destruct Ht as [Hc Ht].
  apply negb_true_iff in Hc.
  rewrite (skipws_token _ _ Hc). simpl. rewrite Hc.
  rewrite (read_word_app _ _ Ht Hr). reflexivity.
Qed.

Lemma TokenizeInput_nil (input : string) :
  Application.TokenizeInput input = [] <-> all_space input = true.
Proof.
  unfold Application.TokenizeInput. rewrite tokens_of_step.
  rewrite <- extract_none.
  destruct (extract input) as [[token rest]|]; split; intros H;
    try discriminate; reflexivity.
Qed.

Lemma TokenizeInput_token (w : string) (c : ascii) (t rest : string) :
  all_space w = true -> no_space (String c t) = true ->
  token_end rest = true ->
  Application.TokenizeInput (w ++ String c t ++ rest) =
  String c t :: Application.TokenizeInput rest.
Proof.
  intros Hw Ht Hr. unfold Application.TokenizeInput.
  rewrite tokens_of_step, (extract_token _ _ _ _ Hw Ht Hr). reflexivity.
Qed.

Example TokenizeInput_spaces :
  Application.TokenizeInput "  open   a.txt " = ["open"; "a.txt"].
Proof. reflexivity. Qed.

Example TokenizeInput_blank : Application.TokenizeInput "   " = [].
Proof. reflexivity. Qed.

(** ** The history *)

Lemma Pop_last (e : Editor) (before : list ptr) (command : ptr)
      (hp : list Command) (i : list string) (o : string) (cs : list Call) :
  CommandHistory.Pop (mkProcess e (before ++ [command]) hp i o cs) =
  Ok command (mkProcess e before hp i o cs).
Proof.
  unfold CommandHistory.Pop. simpl commandhistory.
  rewrite rev_app_distr. simpl.
  unfold bind, CommandHistory.set_commands, ret. simpl.
  rewrite rev_involutive. reflexivity.
Qed.

Lemma Push_state (e : Editor) (h : list ptr) (command : ptr)
      (hp : list Command) (i : list string) (o : string) (cs : list Call) :
  CommandHistory.Push command (mkProcess e h hp i o cs) =
  Ok tt (mkProcess e (h ++ [command]) hp i o cs).
Proof. reflexivity. Qed.

(** C5. The history is last-in-first-out: from any state, pushing [c1],
    [c2], [c3] and then popping three times returns [c3], [c2], [c1], and the
    state, the history included, is then the one before the pushes. *)
Theorem history_is_lifo (s : Process) (c1 c2 c3 : ptr) :
  (CommandHistory.Push c1 ;; CommandHistory.Push c2 ;; CommandHistory.Push c3 ;;
   x <- CommandHistory.Pop ;; y <- CommandHistory.Pop ;;
   z <- CommandHistory.Pop ;; ret (x, y, z)) s
  = Ok (c3, c2, c1) s.
Proof.
  destruct s as [e h hp i o cs].
  unfold bind at 1. rewrite Push_state.
  unfold bind at 1. rewrite Push_state.
  unfold bind at 1. rewrite Push_state.
  unfold bind at 1. rewrite Pop_last.
  unfold bind at 1. rewrite Pop_last.
  unfold bind at 1. rewrite Pop_last.
  reflexivity.
Qed.

(** C9. [Pop] needs a non-empty history: with a last entry it returns that
    entry and removes it, so it returns what was pushed last; on the empty
    history, and only there, it is undefined, there being no test for
    emptiness before [back()] and [pop_back()]. *)
Theorem Pop_needs_nonempty_history :
  (forall e before command hp i o cs,
      CommandHistory.Pop (mkProcess e (before ++ [command]) hp i o cs) =
      Ok command (mkProcess e before hp i o cs)) /\
  (forall s command,
      (CommandHistory.Push command ;; CommandHistory.Pop) s = Ok command s) /\
  (forall s, CommandHistory.Pop s = Undefined <-> commandhistory s = []).
Proof.
  split; [exact Pop_last|]. split.
  - intros [e h hp i o cs] command.
    unfold bind. rewrite Push_state. apply Pop_last.
  - intros [e h hp i o cs]. simpl commandhistory.
    destruct h as [|x h] using rev_ind.
    + split; reflexivity.
    + rewrite Pop_last. split; [discriminate|].
      intros H. destruct h; discriminate.
Qed.

(** ** Commands and the receiver *)

Lemma Execute_state (c : Command) (e : Editor) (h : list ptr)
      (hp : list Command) (i : list string) (o : string) (cs : list Call) :
  Execute c (mkProcess e h hp i o cs) =
  Ok tt (mkProcess e h hp i (o ++ text_of (table_Execute c))
                   (cs ++ [table_Execute c])).
Proof. destruct c; reflexivity. Qed.

Lemma Undo_calls (c : Command) (s : Process) :
  exists s', Undo c s = Ok tt s' /\
             calls s' = calls s ++ table_Undo c (filepath (editor s)) /\
             filepath (editor s') = path_after_Undo c (filepath (editor s)) /\
             heap s' = heap s /\ commandhistory s' = commandhistory s /\
             cin s' = cin s.
Proof.
  destruct s as [e h hp i o cs].
  destruct c; eexists; (split; [reflexivity|]); simpl;
    rewrite ?app_nil_r, <- ?app_assoc; repeat split; reflexivity.
Qed.

(** C4. [Execute] and [Undo] of every command enter exactly the receiver
    operations of the table: Save -> (Save, Revert); SaveAs ->
    (SaveAs(newpath), SetPath(oldpath)); Open -> (Open(path), Close);
    Print -> (Print, nothing); Close -> (Close, Open(p)) with p read through
    GetPath when [Undo] runs, so a path set after the Close was executed is
    the one reopened; New -> (CreateNew, Close). *)
Theorem commands_follow_table (c : Command) (s : Process) :
  (exists s', Execute c s = Ok tt s' /\
              calls s' = calls s ++ [table_Execute c]) /\
  (exists s', Undo c s = Ok tt s' /\
              calls s' = calls s ++ table_Undo c (filepath (editor s))) /\
  (forall p, exists s1 s2 s3,
      Execute CloseCommand s = Ok tt s1 /\
      Editor.SetPath p s1 = Ok tt s2 /\
      Undo CloseCommand s2 = Ok tt s3 /\
      calls s3 = calls s2 ++ [CallGetPath; CallOpen p]).
Proof.
  split; [|split].
  - destruct s as [e h hp i o cs]. rewrite Execute_state.
    eexists; split; reflexivity.
  - destruct (Undo_calls c s) as (s' & H1 & H2 & _). eauto.
  - intros p. destruct s as [e h hp i o cs].
    do 3 eexists.
    split; [reflexivity|]. split; [reflexivity|]. split; [reflexivity|].
    simpl. rewrite <- app_assoc. reflexivity.
Qed.

(** C10. [Execute] of any command leaves the path of the editor (the whole
    [Editor] object) as it was, also for SaveAs, and enters no [SetPath]; so
    do the constructors; [Undo] leaves the path as it was unless the command
    is a SaveAs, and only then enters [SetPath], which sets the path to
    [oldpath] and can thereby change it. *)
Theorem only_SaveAs_Undo_sets_path :
  (forall c s, exists s' added,
      Execute c s = Ok tt s' /\ editor s' = editor s /\
      calls s' = calls s ++ added /\
      forall path, ~ In (CallSetPath path) added) /\
  (forall newpath s, exists p s',
      SaveAsCommand_new newpath s = Ok p s' /\ editor s' = editor s /\
      calls s' = calls s ++ [CallGetPath]) /\
  (forall c s, exists p s',
      new c s = Ok p s' /\ editor s' = editor s /\ calls s' = calls s) /\
  (forall c s, exists s' added,
      Undo c s = Ok tt s' /\
      calls s' = calls s ++ added /\
      filepath (editor s') =
        match c with
        | SaveAsCommand oldpath _ => oldpath
        | _ => filepath (editor s)
        end /\
      ((exists path, In (CallSetPath path) added)
       <-> exists oldpath newpath, c = SaveAsCommand oldpath newpath)) /\
  (exists s s', Undo (SaveAsCommand "a.txt" "b.txt") s = Ok tt s' /\
                filepath (editor s') <> filepath (editor s)).
Proof.
  split; [|split; [|split; [|split]]].
  - intros c [e h hp i o cs]. rewrite Execute_state.
    exists (mkProcess e h hp i (o ++ text_of (table_Execute c))
                      (cs ++ [table_Execute c])), [table_Execute c].
    repeat split. intros path [H|[]]. destruct c; discriminate.
  - intros newpath [e h hp i o cs]. do 2 eexists. repeat split.
  - intros c [e h hp i o cs]. do 2 eexists. repeat split.
  - intros c s. destruct (Undo_calls c s) as (s' & H1 & H2 & H3 & _).
    exists s', (table_Undo c (filepath (editor s))).
    split; [exact H1|]. split; [exact H2|]. split.
    + rewrite H3. destruct c; reflexivity.
    + split.
      * intros [path Hin]. destruct c; simpl in Hin;
          repeat (destruct Hin as [Hin|Hin]; [try discriminate|]);
          try contradiction.
        eauto.
      * intros (oldpath & newpath & ->). exists oldpath. left. reflexivity.
  - exists (Application.start []). eexists. split; [reflexivity|].
    simpl. discriminate.
Qed.

(** ** Objects persist *)

Lemma keeps_ret {A} (a : A) : keeps_objects (ret a).
Proof.
  intros s b s' H. inversion H; subst. exists []. now rewrite app_nil_r.
Qed.

Lemma keeps_undefined {A} : keeps_objects (@undefined A).
Proof. intros s a s' H. discriminate. Qed.

Lemma keeps_bind {A B} (m : M A) (k : A -> M B) :
  keeps_objects m -> (forall a, keeps_objects (k a)) ->
  keeps_objects (bind m k).
Proof.
  intros Hm Hk s b s' H. unfold bind in H.
  destruct (m s) as [a s1|] eqn:E; [|discriminate].
  destruct (Hm _ _ _ E) as [m1 H1]. destruct (Hk _ _ _ _ H) as [m2 H2].
  exists (m1 ++ m2). rewrite H2, H1, app_assoc. reflexivity.
Qed.

Lemma keeps_same {A} (m : M A) :
  (forall s a s', m s = Ok a s' -> heap s' = heap s) -> keeps_objects m.
Proof.
  intros Hm s a s' H. exists []. rewrite app_nil_r. eauto.
Qed.

Lemma keeps_print (text : string) : keeps_objects (print text).
Proof. apply keeps_same. intros s a s' H. inversion H. reflexivity. Qed.

Lemma keeps_enter (c : Call) : keeps_objects (enter c).
Proof. apply keeps_same. intros s a s' H. inversion H. reflexivity. Qed.

Lemma keeps_getline : keeps_objects getline.
Proof.
  apply keeps_same. intros s a s' H. unfold getline in H.
  destruct (cin s); inversion H; reflexivity.
Qed.

Lemma keeps_deref (p : ptr) : keeps_objects (deref p).
Proof.
  apply keeps_same. intros s a s' H. unfold deref in H.
  destruct (nth_error (heap s) p); inversion H; reflexivity.
Qed.

Lemma keeps_new (c : Command) : keeps_objects (new c).
Proof. intros s a s' H. inversion H. exists [c]. reflexivity. Qed.

Lemma keeps_set_commands (l : list ptr) :
  keeps_objects (CommandHistory.set_commands l).
Proof. apply keeps_same. intros s a s' H. inversion H. reflexivity. Qed.

Lemma keeps_SetPath (path : string) : keeps_objects (Editor.SetPath path).
Proof.
  apply keeps_bind; [apply keeps_enter|]. intros _.
  apply keeps_same. intros s a s' H. inversion H. reflexivity.
Qed.

Lemma keeps_GetPath : keeps_objects Editor.GetPath.
Proof.
  apply keeps_bind; [apply keeps_enter|]. intros _.
  apply keeps_same. intros s a s' H. inversion H. reflexivity.
Qed.

Create HintDb keeps.
#[local] Hint Resolve keeps_ret keeps_undefined keeps_print keeps_enter
  keeps_getline keeps_deref keeps_new keeps_set_commands keeps_SetPath
  keeps_GetPath : keeps.

Ltac keeps_step :=
  match goal with
  | |- keeps_objects (bind _ _) => apply keeps_bind; [|intros ?]
  | |- keeps_objects (if ?b then _ else _) => destruct b
  | |- keeps_objects (match ?x with _ => _ end) => destruct x
  | |- keeps_objects _ => solve [auto with keeps]
  end.

Lemma keeps_Execute (c : Command) : keeps_objects (Execute c).
Proof.
  destruct c; cbv [Execute Editor.Save Editor.SaveAs Editor.Open Editor.Print
                   Editor.Close Editor.CreateNew]; repeat keeps_step.
Qed.

Lemma keeps_Undo (c : Command) : keeps_objects (Undo c).
Proof.
  destruct c; cbv [Undo Editor.Revert Editor.Open Editor.Close];
    repeat keeps_step.
Qed.

Lemma keeps_Push (command : ptr) : keeps_objects (CommandHistory.Push command).
Proof. apply keeps_same. intros s a s' H. inversion H. reflexivity. Qed.

Lemma keeps_Pop : keeps_objects CommandHistory.Pop.
Proof.
  apply keeps_same. intros s a s' H. unfold CommandHistory.Pop in H.
  destruct (rev (commandhistory s)); inversion H; reflexivity.
Qed.

#[local] Hint Resolve keeps_Execute keeps_Undo keeps_Push keeps_Pop : keeps.

Lemma keeps_ParseInput (input : string) :
  keeps_objects (Application.ParseInput input).
Proof.
  unfold Application.ParseInput.
  generalize (Application.TokenizeInput input). intros tokens.
  cbv [Application.at0 Application.erase_begin SaveCommand_new
       SaveAsCommand_new OpenCommand_new PrintCommand_new CloseCommand_new
       NewCommand_new].
  repeat keeps_step.
Qed.

#[local] Hint Resolve keeps_ParseInput : keeps.

Lemma keeps_Run_body : keeps_objects Application.Run_body.
Proof.
  cbv [Application.Run_body call_Execute]. repeat keeps_step.
Qed.

#[local] Hint Resolve keeps_Run_body : keeps.

Lemma keeps_perform (a : Action) : keeps_objects (perform a).
Proof.
  destruct a; cbv [perform undo_last call_Execute call_Undo SaveAsCommand_new];
    repeat keeps_step.
Qed.

Lemma keeps_perform_all (l : list Action) : keeps_objects (perform_all l).
Proof.
  induction l as [|a l IH]; simpl; [apply keeps_ret|].
  apply keeps_bind; [apply keeps_perform|]. intros _. exact IH.
Qed.

(** C3. A SaveAs command constructed in a state [s] restores, when undone,
    the path the editor had in [s], whatever was done in between: turns of
    the loop, other commands constructed, executed and undone in any order,
    pushes and pops, and direct changes of the path. *)
Theorem SaveAs_Undo_restores_construction_path
        (s : Process) (newpath : string) (later : list Action)
        (command : ptr) (s2 : Process) :
  (command <- SaveAsCommand_new newpath ;; perform_all later ;; ret command) s
  = Ok command s2 ->
  exists s3, call_Undo command s2 = Ok tt s3 /\
             filepath (editor s3) = filepath (editor s).
Proof.
  intros H. unfold bind in H.
  destruct (SaveAsCommand_new newpath s) as [p s1|] eqn:E1; [|discriminate].
  destruct (perform_all later s1) as [u s2'|] eqn:E2; [|discriminate].
  inversion H; subst p s2'. clear H.
  destruct (keeps_perform_all later _ _ _ E2) as [more Hmore].
  destruct s as [e h hp i o cs].
  unfold SaveAsCommand_new, Editor.GetPath, bind, enter, new in E1.
  simpl in E1. inversion E1; subst command s1. clear E1.
  simpl in Hmore.
  assert (Hobj : nth_error (heap s2) (List.length hp) =
                 Some (SaveAsCommand (filepath e) newpath)).
  { rewrite Hmore, <- app_assoc. rewrite nth_error_app2 by lia.
    rewrite Nat.sub_diag. reflexivity. }
  unfold call_Undo, bind, deref. rewrite Hobj.
  destruct s2 as [e2 h2 hp2 i2 o2 cs2]. eexists. split; reflexivity.
Qed.

Lemma SaveAs_Undo_restores_construction_path_witness :
  exists s3, call_Undo 0 restore_state = Ok tt s3 /\
             filepath (editor s3) = "a.txt".
Proof.
  apply (SaveAs_Undo_restores_construction_path
           restore_start "b.txt" restore_later 0 restore_state).
  vm_compute. reflexivity.
Defined.

(** ** The dispatcher *)

Lemma string_app_assoc (a b c : string) :
  ((a ++ b) ++ c)%string = (a ++ b ++ c)%string.
Proof. induction a as [|x a IH]; simpl; [reflexivity|]. now rewrite IH. Qed.

Lemma Run_body_step (e : Editor) (h : list ptr) (hp : list Command)
      (input : string) (rest : list string) (o : string) (cs : list Call) :
  Application.Run_body (mkProcess e h hp (input :: rest) o cs) =
  (command <- Application.ParseInput input ;;
   match command with
   | Some p => call_Execute p ;; CommandHistory.Push p
   | None => print Application.not_recognized
   end) (mkProcess e h hp rest (o ++ Application.prompt) cs).
Proof. reflexivity. Qed.

Lemma call_Execute_last (e : Editor) (h : list ptr) (hp : list Command)
      (c : Command) (i : list string) (o : string) (cs : list Call) :
  call_Execute (List.length hp) (mkProcess e h (hp ++ [c]) i o cs) =
  Execute c (mkProcess e h (hp ++ [c]) i o cs).
Proof.
  unfold call_Execute, bind, deref. simpl heap.
  rewrite nth_error_app2 by lia. rewrite Nat.sub_diag. reflexivity.
Qed.

Lemma needs_argument_cases (name : string) :
  needs_argument name = true <-> name = "saveas" \/ name = "open".
Proof.
  unfold needs_argument. rewrite orb_true_iff, !String.eqb_eq. tauto.
Qed.

Lemma ParseInput_recognized (input name : string) (args : list string)
      (e : Editor) (h : list ptr) (hp : list Command) (i : list string)
      (o : string) (cs : list Call) :
  Application.TokenizeInput input = name :: args ->
  In name recognized ->
  (needs_argument name = true -> args <> []) ->
  Application.ParseInput input (mkProcess e h hp i o cs) =
  let c := command_for name (hd EmptyString args) (filepath e) in
  Ok (Some (List.length hp))
     (mkProcess e h (hp ++ [c]) i o (cs ++ constructor_calls c)).
Proof.
  intros Htok Hin Harg.
  unfold Application.ParseInput. rewrite Htok.
  simpl in Hin.
  destruct Hin as [<-|[<-|[<-|[<-|[<-|[<-|[]]]]]]];
    try (destruct args as [|arg0 args];
         [exfalso; apply Harg; reflexivity|]);
    cbv zeta; simpl command_for; simpl constructor_calls;
    rewrite ?app_nil_r; reflexivity.
Qed.

Lemma ParseInput_missing (input name : string)
      (e : Editor) (h : list ptr) (hp : list Command) (i : list string)
      (o : string) (cs : list Call) :
  Application.TokenizeInput input = [name] ->
  needs_argument name = true ->
  Application.ParseInput input (mkProcess e h hp i o cs) =
  Ok None (mkProcess e h hp i (o ++ missing_argument name) cs).
Proof.
  intros Htok Hname. apply needs_argument_cases in Hname.
  unfold Application.ParseInput. rewrite Htok.
  destruct Hname as [-> | ->]; reflexivity.
Qed.

Lemma ParseInput_unrecognized (input name : string) (args : list string)
      (s : Process) :
  Application.TokenizeInput input = name :: args ->
  ~ In name recognized ->
  Application.ParseInput input s = Ok None s.
Proof.
  intros Htok Hname.
  unfold Application.ParseInput. rewrite Htok.
  unfold recognized in Hname. simpl in Hname.
  assert (H1 : (name =? "save") = false) by (apply String.eqb_neq; intuition).
  assert (H2 : (name =? "saveas") = false) by (apply String.eqb_neq; intuition).
  assert (H3 : (name =? "open") = false) by (apply String.eqb_neq; intuition).
  assert (H4 : (name =? "print") = false) by (apply String.eqb_neq; intuition).
  assert (H5 : (name =? "close") = false) by (apply String.eqb_neq; intuition).
  assert (H6 : (name =? "new") = false) by (apply String.eqb_neq; intuition).
  unfold Application.at0, Application.erase_begin, bind, ret.
  rewrite H1, H2, H3, H4, H5, H6. reflexivity.
Qed.

Lemma Run_body_recognized (input name : string) (args : list string)
      (e : Editor) (h : list ptr) (hp : list Command) (rest : list string)
      (o : string) (cs : list Call) :
  Application.TokenizeInput input = name :: args ->
  In name recognized ->
  (needs_argument name = true -> args <> []) ->
  Application.Run_body (mkProcess e h hp (input :: rest) o cs) =
  let c := command_for name (hd EmptyString args) (filepath e) in
  Ok tt (mkProcess e (h ++ [List.length hp]) (hp ++ [c]) rest
                   (o ++ Application.prompt ++ text_of (table_Execute c))
                   (cs ++ constructor_calls c ++ [table_Execute c])).
Proof.
  intros Htok Hin Harg. rewrite Run_body_step.
  unfold bind at 1. rewrite (ParseInput_recognized input name args _ _ _ _ _ _ Htok Hin Harg).
  cbv zeta. unfold bind.
  rewrite call_Execute_last, Execute_state, Push_state.
  rewrite string_app_assoc, <- app_assoc. reflexivity.
Qed.

Lemma Run_body_missing (input name : string)
      (e : Editor) (h : list ptr) (hp : list Command) (rest : list string)
      (o : string) (cs : list Call) :
  Application.TokenizeInput input = [name] ->
  needs_argument name = true ->
  Application.Run_body (mkProcess e h hp (input :: rest) o cs) =
  Ok tt (mkProcess e h hp rest
                   (o ++ Application.prompt ++ missing_argument name
                      ++ Application.not_recognized) cs).
Proof.
  intros Htok Hname. rewrite Run_body_step.
  unfold bind. rewrite (ParseInput_missing input name _ _ _ _ _ _ Htok Hname).
  unfold print. simpl cout.
  rewrite !string_app_assoc. reflexivity.
Qed.

Lemma Run_body_unrecognized (input name : string) (args : list string)
      (e : Editor) (h : list ptr) (hp : list Command) (rest : list string)
      (o : string) (cs : list Call) :
  Application.TokenizeInput input = name :: args ->
  ~ In name recognized ->
  Application.Run_body (mkProcess e h hp (input :: rest) o cs) =
  Ok tt (mkProcess e h hp rest
                   (o ++ Application.prompt ++ Application.not_recognized) cs).
Proof.
  intros Htok Hname. rewrite Run_body_step.
  unfold bind. rewrite (ParseInput_unrecognized input name args _ Htok Hname).
  unfold print. simpl cout.
  rewrite !string_app_assoc. reflexivity.
Qed.

Lemma all_space_token_end (s : string) :
  all_space s = true -> token_end s = true.
Proof.
  destruct s as [|c s]; simpl; [reflexivity|].
  intros H. apply andb_prop in H. tauto.
Qed.

Lemma dispatch_cases (name : string) (args : list string) :
  ~ In name recognized \/
  (In name recognized /\ needs_argument name = true /\ args = []) \/
  (In name recognized /\ (needs_argument name = true -> args <> [])).
Proof.
  destruct (in_dec string_dec name recognized) as [Hin|Hout]; [|tauto].
  right. destruct args as [|a args]; [|right; split; [exact Hin|discriminate]].
  destruct (needs_argument name) eqn:E; [left; tauto|].
  right. split; [exact Hin|discriminate].
Qed.

Lemma Run_body_defined (input : string) (e : Editor) (h : list ptr)
      (hp : list Command) (rest : list string) (o : string) (cs : list Call) :
  Application.TokenizeInput input <> [] ->
  exists s', Application.Run_body (mkProcess e h hp (input :: rest) o cs)
             = Ok tt s'.
Proof.
  intros Htok.
  destruct (Application.TokenizeInput input) as [|name args] eqn:E;
    [contradiction|].
  destruct (dispatch_cases name args) as [H|[(H1 & H2 & ->)|(H1 & H2)]].
  - rewrite (Run_body_unrecognized input name args _ _ _ _ _ _ E H). eauto.
  - rewrite (Run_body_missing input name _ _ _ _ _ _ E H2). eauto.
  - rewrite (Run_body_recognized input name args _ _ _ _ _ _ E H1 H2). eauto.
Qed.

Lemma ParseInput_defined (input : string) (s : Process) :
  Application.TokenizeInput input <> [] ->
  exists r s', Application.ParseInput input s = Ok r s'.
Proof.
  intros Htok. destruct s as [e h hp i o cs].
  destruct (Application.TokenizeInput input) as [|name args] eqn:E;
    [contradiction|].
  destruct (dispatch_cases name args) as [H|[(H1 & H2 & ->)|(H1 & H2)]].
  - rewrite (ParseInput_unrecognized input name args _ E H). eauto.
  - rewrite (ParseInput_missing input name _ _ _ _ _ _ E H2). eauto.
  - rewrite (ParseInput_recognized input name args _ _ _ _ _ _ E H1 H2). eauto.
Qed.

Lemma ParseInput_no_token (input : string) (s : Process) :
  Application.TokenizeInput input = [] ->
  Application.ParseInput input s = Undefined.
Proof.
  intros Htok. unfold Application.ParseInput. rewrite Htok. reflexivity.
Qed.

(** C2. A line is tokenized to the empty vector exactly when it is empty or
    all whitespace; [ParseInput], and with it the turn of the loop that read
    the line, is undefined exactly on those lines, because of [tokens[0]] on
    the empty vector; such lines exist, the empty line being one.  On every
    line with a token both are defined. *)
Theorem dispatch_undefined_on_blank_lines :
  (forall input,
      Application.TokenizeInput input = [] <-> all_space input = true) /\
  (forall input s,
      Application.ParseInput input s = Undefined
      <-> Application.TokenizeInput input = []) /\
  (forall input e h hp rest o cs,
      Application.Run_body (mkProcess e h hp (input :: rest) o cs) = Undefined
      <-> Application.TokenizeInput input = []) /\
  Application.ParseInput EmptyString (Application.start []) = Undefined /\
  Application.Run_body (Application.start ["   "]) = Undefined.
Proof.
  split; [exact TokenizeInput_nil|].
  split; [|split; [|split; reflexivity]].
  - intros input s. split.
    + intros H. destruct (Application.TokenizeInput input) eqn:E;
        [reflexivity|].
      destruct (ParseInput_defined input s) as (r & s' & H').
      * rewrite E. discriminate.
      * congruence.
    + apply ParseInput_no_token.
  - intros input e h hp rest o cs. split.
    + intros H. destruct (Application.TokenizeInput input) eqn:E;
        [reflexivity|].
      destruct (Run_body_defined input e h hp rest o cs) as (s' & H').
      * rewrite E. discriminate.
      * congruence.
    + intros H. rewrite Run_body_step. unfold bind.
      rewrite (ParseInput_no_token _ _ H). reflexivity.
Qed.

(** C6. A line whose first token is one of save, saveas, open, print, close,
    new, with a further token when the name is saveas or open, makes the turn
    of the loop construct one command object (the one of that name, added to
    the objects), execute it once (one receiver call, that of its [Execute],
    after the read of its constructor if any) and push one entry, the pointer
    to that object, onto the history. *)
Theorem recognized_line_one_command
        (input name : string) (args : list string)
        (e : Editor) (h : list ptr) (hp : list Command) (rest : list string)
        (o : string) (cs : list Call) :
  Application.TokenizeInput input = name :: args ->
  In name recognized ->
  (needs_argument name = true -> args <> []) ->
  Application.Run_body (mkProcess e h hp (input :: rest) o cs) =
  let c := command_for name (hd EmptyString args) (filepath e) in
  Ok tt (mkProcess e (h ++ [List.length hp]) (hp ++ [c]) rest
                   (o ++ Application.prompt ++ text_of (table_Execute c))
                   (cs ++ constructor_calls c ++ [table_Execute c])).
Proof. apply Run_body_recognized. Qed.

Lemma recognized_line_one_command_witness :
  Application.Run_body
    (mkProcess (mkEditor "a.txt" EmptyString) [0] [OpenCommand "a.txt"]
               ["saveas  b.txt now"; "close"] EmptyString [CallOpen "a.txt"]) =
  Ok tt (mkProcess (mkEditor "a.txt" EmptyString) [0; 1]
                   [OpenCommand "a.txt"; SaveAsCommand "a.txt" "b.txt"]
                   ["close"]
                   (Application.prompt ++ text_of (CallSaveAs "b.txt"))
                   [CallOpen "a.txt"; CallGetPath; CallSaveAs "b.txt"]).
Proof.
  apply (recognized_line_one_command
           "saveas  b.txt now" "saveas" ["b.txt"; "now"]
           (mkEditor "a.txt" EmptyString) [0] [OpenCommand "a.txt"]
           ["close"] EmptyString [CallOpen "a.txt"]).
  - reflexivity.
  - simpl. tauto.
  - discriminate.
Defined.

(** C7. A line whose first token is none of the six names makes the turn of
    the loop construct no object and push nothing: objects, history, editor
    and receiver calls are as before, and the console receives the text
    asking for a command and then the "not recognized" text, both given here
    character by character. *)
Theorem unrecognized_line_no_command
        (input name : string) (args : list string)
        (e : Editor) (h : list ptr) (hp : list Command) (rest : list string)
        (o : string) (cs : list Call) :
  Application.TokenizeInput input = name :: args ->
  ~ In name recognized ->
  Application.Run_body (mkProcess e h hp (input :: rest) o cs) =
  Ok tt (mkProcess e h hp rest
                   (o ++ asks_for_command ++ says_not_recognized) cs).
Proof.
  intros Htok Hname.
  rewrite (Run_body_unrecognized input name args e h hp rest o cs Htok Hname).
  reflexivity.
Qed.

Lemma unrecognized_line_no_command_witness :
  Application.Run_body (Application.start ["foo bar"]) =
  Ok tt (mkProcess (mkEditor EmptyString EmptyString) [] [] []
                   (asks_for_command ++ says_not_recognized) []).
Proof.
  apply (unrecognized_line_no_command
           "foo bar" "foo" ["bar"]
           (mkEditor EmptyString EmptyString) [] [] [] EmptyString []).
  - reflexivity.
  - simpl. intros [H|[H|[H|[H|[H|[H|[]]]]]]]; discriminate.
Defined.

Lemma TokenizeInput_name_only (w0 name w1 : string) :
  needs_argument name = true ->
  all_space w0 = true -> all_space w1 = true ->
  Application.TokenizeInput (w0 ++ name ++ w1) = [name].
Proof.
  intros Hname H0 H1. apply needs_argument_cases in Hname.
  assert (Hnil : Application.TokenizeInput w1 = [])
    by (apply TokenizeInput_nil; exact H1).
  apply all_space_token_end in H1.
  destruct Hname as [-> | ->];
    rewrite TokenizeInput_token by (reflexivity || assumption);
    rewrite Hnil; reflexivity.
Qed.

Lemma TokenizeInput_name_arg (w0 name : string) (sp : ascii) (w1 : string)
      (a : ascii) (arg tail : string) :
  needs_argument name = true ->
  all_space w0 = true -> isspace sp = true -> all_space w1 = true ->
  no_space (String a arg) = true -> token_end tail = true ->
  Application.TokenizeInput
    (w0 ++ name ++ String sp w1 ++ String a arg ++ tail) =
  name :: String a arg :: Application.TokenizeInput tail.
Proof.
  intros Hname H0 Hsp H1 Harg Htail. apply needs_argument_cases in Hname.
  assert (Hsep : all_space (String sp w1) = true)
    by (simpl; rewrite Hsp, H1; reflexivity).
  destruct Hname as [-> | ->];
    rewrite TokenizeInput_token by (reflexivity || assumption);
    rewrite TokenizeInput_token by assumption; reflexivity.
Qed.

(** C8. A line that is only [saveas], or only [open], with any whitespace
    around it, constructs no object and leaves the history as it was:
    [ParseInput] prints the "missing argument" text and returns the null
    pointer, which [Run] treats as for an unrecognized name, printing the
    "not recognized" text after it; only the console changes.  With a
    further token, the command holds that token as it is: all its characters
    up to the next whitespace or the end of the line, none of the whitespace
    before it. *)
Theorem missing_and_verbatim_argument
        (name w0 w1 : string) (sp : ascii) (w2 : string)
        (a : ascii) (arg tail : string)
        (e : Editor) (h : list ptr) (hp : list Command) (rest : list string)
        (o : string) (cs : list Call) :
  needs_argument name = true ->
  all_space w0 = true -> all_space w1 = true ->
  isspace sp = true -> all_space w2 = true ->
  no_space (String a arg) = true -> token_end tail = true ->
  Application.ParseInput (w0 ++ name ++ w1) (mkProcess e h hp rest o cs) =
  Ok None (mkProcess e h hp rest (o ++ missing_argument name) cs) /\
  Application.Run_body (mkProcess e h hp ((w0 ++ name ++ w1)%string :: rest) o cs) =
  Ok tt (mkProcess e h hp rest
                   (o ++ Application.prompt ++ missing_argument name
                      ++ Application.not_recognized) cs) /\
  Application.Run_body
    (mkProcess e h hp
               ((w0 ++ name ++ String sp w2 ++ String a arg ++ tail)%string :: rest)
               o cs) =
  let c := if name =? "saveas"
           then SaveAsCommand (filepath e) (String a arg)
           else OpenCommand (String a arg) in
  Ok tt (mkProcess e (h ++ [List.length hp]) (hp ++ [c]) rest
                   (o ++ Application.prompt ++ text_of (table_Execute c))
                   (cs ++ constructor_calls c ++ [table_Execute c])).
Proof.
  intros Hname H0 H1 Hsp H2 Harg Htail.
  pose proof (TokenizeInput_name_only w0 name w1 Hname H0 H1) as Hone.
  pose proof (TokenizeInput_name_arg w0 name sp w2 a arg tail
                Hname H0 Hsp H2 Harg Htail) as Htwo.
  split; [|split].
  - apply ParseInput_missing; assumption.
  - apply Run_body_missing; assumption.
  - rewrite (Run_body_recognized _ name _ e h hp rest o cs Htwo).
    + apply needs_argument_cases in Hname.
      destruct Hname as [-> | ->]; reflexivity.
    + apply needs_argument_cases in Hname.
      destruct Hname as [-> | ->]; simpl; tauto.
    + discriminate.
Qed.

Lemma missing_and_verbatim_argument_witness :
  Application.ParseInput " saveas  " (Application.start []) =
  Ok None (mkProcess (mkEditor EmptyString EmptyString) [] [] []
                     (missing_argument "saveas") []) /\
  Application.Run_body (Application.start [" saveas  "]) =
  Ok tt (mkProcess (mkEditor EmptyString EmptyString) [] [] []
                   (Application.prompt ++ missing_argument "saveas"
                      ++ Application.not_recognized) []) /\
  Application.Run_body (Application.start [" saveas  b,1;(x).txt! z"]) =
  Ok tt (mkProcess (mkEditor EmptyString EmptyString) [0]
                   [SaveAsCommand EmptyString "b,1;(x).txt!"] []
                   (Application.prompt ++ text_of (CallSaveAs "b,1;(x).txt!"))
                   [CallGetPath; CallSaveAs "b,1;(x).txt!"]).
Proof.
  apply (missing_and_verbatim_argument
           "saveas" " " "  " " "%char " " "b"%char ",1;(x).txt!" " z"
           (mkEditor EmptyString EmptyString) [] [] [] EmptyString []);
    reflexivity.
Defined.

(** ** The scenario [open a.txt], [saveas b.txt], [close] *)

(** C1, as amended.  The three lines construct, execute and push three
    commands in that order; undoing from the top of the history, the Close
    command reopens the path the editor has then, the SaveAs command sets the
    path to the one recorded at its construction, and the Open command
    closes.  The recorded path is the empty path of the fresh editor, not
    [a.txt]: [Open] is a placeholder that does not set the path. *)
Theorem scenario_open_saveas_close :
  exists s3 s4 s5 s6,
    Application.Run 3 scenario = Ok tt s3 /\
    heap s3 = [OpenCommand "a.txt"; SaveAsCommand EmptyString "b.txt";
               CloseCommand] /\
    commandhistory s3 = [0; 1; 2] /\
    calls s3 = [CallOpen "a.txt"; CallGetPath; CallSaveAs "b.txt"; CallClose] /\
    filepath (editor s3) = EmptyString /\
    undo_last s3 = Ok tt s4 /\
    commandhistory s4 = [0; 1] /\
    calls s4 = calls s3 ++ [CallGetPath; CallOpen (filepath (editor s3))] /\
    undo_last s4 = Ok tt s5 /\
    commandhistory s5 = [0] /\
    calls s5 = calls s4 ++ [CallSetPath EmptyString] /\
    filepath (editor s5) = EmptyString /\
    undo_last s5 = Ok tt s6 /\
    commandhistory s6 = [] /\
    calls s6 = calls s5 ++ [CallClose].
Proof.
  do 4 eexists.
  split; [vm_compute; reflexivity|].
  do 4 (split; [reflexivity|]).
  split; [vm_compute; reflexivity|].
  do 2 (split; [reflexivity|]).
  split; [vm_compute; reflexivity|].
  do 3 (split; [reflexivity|]).
  split; [vm_compute; reflexivity|].
  split; reflexivity.
Qed.

(** C1 as first stated fails: in the scenario the undo of the SaveAs
    command does not leave the editor with the path [a.txt]. *)
Lemma scenario_SaveAs_Undo_not_a_txt :
  ~ exists s3 s4 s5,
      Application.Run 3 scenario = Ok tt s3 /\
      undo_last s3 = Ok tt s4 /\
      undo_last s4 = Ok tt s5 /\
      filepath (editor s5) = "a.txt".
Proof.
  intros (s3 & s4 & s5 & H3 & H4 & H5 & Hpath).
  vm_compute in H3. inversion H3; subst s3. clear H3.
  vm_compute in H4. inversion H4; subst s4. clear H4.
  vm_compute in H5. inversion H5; subst s5. clear H5.
  discriminate.
Qed.

(** * Further properties *)

(** ** Stream extraction and the tokens of a line *)

Lemma string_app_nil_r (s : string) : (s ++ EmptyString)%string = s.
Proof. induction s as [|c s IH]; simpl; [reflexivity|]. now rewrite IH. Qed.

Lemma string_length_app (a b : string) :
  String.length (a ++ b) = String.length a + String.length b.
Proof. induction a as [|c a IH]; simpl; [reflexivity|]. now rewrite IH. Qed.

Lemma skipws_split (s : string) :
  exists w, all_space w = true /\ s = (w ++ skipws s)%string.
Proof.
  induction s as [|c s (w & Hw & Hs)]; simpl.
  - exists EmptyString. split; reflexivity.
  - destruct (isspace c) eqn:Hc.
    + exists (String c w). simpl. rewrite Hc, Hw. split; [reflexivity|].
      now rewrite <- Hs.
    + exists EmptyString. split; reflexivity.
Qed.

Lemma skipws_head (s : string) (c : ascii) (s' : string) :
  skipws s = String c s' -> isspace c = false.
Proof.
  induction s as [|d s IH]; simpl; [discriminate|].
  destruct (isspace d) eqn:Hd; [exact IH|].
  intros H. inversion H; subst. exact Hd.
Qed.

Lemma read_word_split (s : string) :
  s = (fst (read_word s) ++ snd (read_word s))%string /\
  no_space (fst (read_word s)) = true /\
  token_end (snd (read_word s)) = true.
Proof.
  induction s as [|c s (H1 & H2 & H3)]; simpl.
  - repeat split.
  - destruct (isspace c) eqn:Hc; simpl.
    + rewrite Hc. repeat split.
    + destruct (read_word s) as [w r]; simpl in *.
      rewrite Hc, H2. simpl. repeat split; [now rewrite <- H1|exact H3].
Qed.

Lemma extract_some (iss t r : string) :
  extract iss = Some (t, r) ->
  exists w, all_space w = true /\ iss = (w ++ t ++ r)%string /\
            token_ok t = true /\ token_end r = true.
Proof.
  unfold extract. intros H.
  destruct (skipws_split iss) as (w & Hw & Hs).
  destruct (read_word_split (skipws iss)) as (H1 & H2 & H3).
  destruct (read_word (skipws iss)) as [t' r']; simpl in *.
  destruct t' as [|c t']; [discriminate|].
  inversion H; subst t r. clear H.
  exists w. split; [exact Hw|]. split; [now rewrite <- H1|].
  split; [|exact H3]. unfold token_ok. simpl. exact H2.
Qed.

Lemma extract_skip (w s : string) :
  all_space w = true -> extract (w ++ s) = extract s.
Proof. intros H. unfold extract. now rewrite skipws_app. Qed.

(** Induction along the loop of [TokenizeInput]. *)
Lemma tokens_ind (P : string -> Prop) :
  (forall iss, extract iss = None -> P iss) ->
  (forall iss t r, extract iss = Some (t, r) -> P r -> P iss) ->
  forall iss, P iss.
Proof.
  intros Hnone Hsome iss.
  remember (String.length iss) as n eqn:Hn.
  revert iss Hn. induction n as [n IH] using lt_wf_ind. intros iss Hn.
  destruct (extract iss) as [[t r]|] eqn:E; [|auto].
  apply (Hsome _ _ _ E).
  destruct (extract_some _ _ _ E) as (w & _ & Hs & Ht & _).
  apply (IH (String.length r)); [|reflexivity].
  subst n. rewrite Hs, !string_length_app.
  destruct t; [discriminate|]. simpl. lia.
Qed.

Lemma TokenizeInput_skip (w s : string) :
  all_space w = true ->
  Application.TokenizeInput (w ++ s) = Application.TokenizeInput s.
Proof.
  intros H. unfold Application.TokenizeInput.
  rewrite (tokens_of_step (w ++ s)), (tokens_of_step s), extract_skip by exact H.
  reflexivity.
Qed.

Lemma strip_app (a b : string) :
  strip (a ++ b) = (strip a ++ strip b)%string.
Proof.
  induction a as [|c a IH]; simpl; [reflexivity|].
  destruct (isspace c); simpl; now rewrite IH.
Qed.

Lemma strip_all_space (w : string) : all_space w = true -> strip w = EmptyString.
Proof.
  induction w as [|c w IH]; simpl; [reflexivity|].
  intros H. apply andb_prop in H. destruct H as [Hc Hw]. rewrite Hc. auto.
Qed.

Lemma strip_no_space (t : string) : no_space t = true -> strip t = t.
Proof.
  induction t as [|c t IH]; simpl; [reflexivity|].
  intros H. apply andb_prop in H. destruct H as [Hc Ht].
  apply negb_true_iff in Hc. rewrite Hc, IH by exact Ht. reflexivity.
Qed.

Lemma token_ok_parts (t : string) :
  token_ok t = true ->
  no_space t = true /\ exists c t', t = String c t'.
Proof.
  unfold token_ok. intros H. apply andb_prop in H. destruct H as [H1 H2].
  split; [exact H2|]. destruct t as [|c t']; [discriminate|eauto].
Qed.

(** X1. Every token of a line is non-empty and holds no whitespace. *)
Theorem TokenizeInput_tokens_ok (input : string) :
  Forall (fun t => token_ok t = true) (Application.TokenizeInput input).
Proof.
  unfold Application.TokenizeInput.
  induction input as [iss E | iss t r E IH] using tokens_ind;
    rewrite tokens_of_step, E.
  - constructor.
  - constructor; [|exact IH].
    destruct (extract_some _ _ _ E) as (_ & _ & _ & Ht & _). exact Ht.
Qed.

(** X2. Tokenizing loses the whitespace and nothing else: the tokens, one
    after the other, are the characters of the line that are not
    whitespace, in their order. *)
Theorem TokenizeInput_keeps_characters (input : string) :
  glue (Application.TokenizeInput input) = strip input.
Proof.
  unfold Application.TokenizeInput.
  induction input as [iss E | iss t r E IH] using tokens_ind;
    rewrite tokens_of_step, E.
  - apply extract_none in E. now rewrite strip_all_space.
  - destruct (extract_some _ _ _ E) as (w & Hw & Hs & Ht & _).
    apply token_ok_parts in Ht. destruct Ht as [Ht _].
    simpl. rewrite IH. rewrite Hs.
    rewrite !strip_app, (strip_all_space _ Hw), (strip_no_space _ Ht).
    reflexivity.
Qed.

(** X3. Tokenizing distributes over a cut at a token boundary: when the
    second part is empty or begins with a whitespace, the tokens of the line
    are those of the first part followed by those of the second. *)
Theorem TokenizeInput_app (a b : string) :
  token_end b = true ->
  Application.TokenizeInput (a ++ b) =
  Application.TokenizeInput a ++ Application.TokenizeInput b.
Proof.
  intros Hb.
  induction a as [iss E | iss t r E IH] using tokens_ind.
  - apply extract_none in E.
    rewrite (TokenizeInput_skip _ _ E).
    apply TokenizeInput_nil in E. rewrite E. reflexivity.
  - destruct (extract_some _ _ _ E) as (w & Hw & Hs & Ht & Hr).
    apply token_ok_parts in Ht. destruct Ht as (Ht & c & t' & ->).
    assert (Hend : token_end (r ++ b) = true).
    { destruct r as [|d r]; [exact Hb|exact Hr]. }
    rewrite Hs at 1. rewrite !string_app_assoc.
    rewrite (TokenizeInput_token _ _ _ _ Hw Ht Hend), IH.
    rewrite Hs, (TokenizeInput_token _ _ _ _ Hw Ht Hr). reflexivity.
Qed.

Lemma TokenizeInput_app_witness :
  Application.TokenizeInput ("saveas" ++ "  b.txt") =
  Application.TokenizeInput "saveas" ++ Application.TokenizeInput "  b.txt".
Proof. apply (TokenizeInput_app "saveas" "  b.txt"). reflexivity. Defined.

(** X4. Writing tokens with one space between them and tokenizing the line
    gives the tokens back, when each is non-empty and without whitespace. *)
Theorem TokenizeInput_concat (tokens : list string) :
  Forall (fun t => token_ok t = true) tokens ->
  Application.TokenizeInput (String.concat " " tokens) = tokens.
Proof.
  induction 1 as [|t l Ht Hl IH]; [reflexivity|].
  apply token_ok_parts in Ht. destruct Ht as (Ht & c & t' & ->).
  destruct l as [|t2 l].
  - pose proof (TokenizeInput_token EmptyString c t' EmptyString
                  eq_refl Ht eq_refl) as H.
    change ("" ++ String c t' ++ "")%string
      with (String c t' ++ "")%string in H.
    rewrite string_app_nil_r in H. exact H.
  - change (String.concat " " (String c t' :: t2 :: l))
      with ("" ++ String c t' ++ " " ++ String.concat " " (t2 :: l))%string.
    rewrite TokenizeInput_token by (reflexivity || assumption).
    rewrite (TokenizeInput_skip " " _ eq_refl), IH. reflexivity.
Qed.

Lemma TokenizeInput_concat_witness :
  Application.TokenizeInput (String.concat " " ["open"; "a,b.txt"; "x"]) =
  ["open"; "a,b.txt"; "x"].
Proof.
  apply (TokenizeInput_concat ["open"; "a,b.txt"; "x"]).
  repeat constructor.
Defined.

(** ** Runs of the loop *)

Lemma Run_body_eof (e : Editor) (h : list ptr) (hp : list Command)
      (o : string) (cs : list Call) :
  Application.Run_body (mkProcess e h hp [] o cs) = Undefined.
Proof.
  unfold Application.Run_body, bind, print, getline. simpl.
  now rewrite ParseInput_no_token.
Qed.

Lemma command_for_SaveAs (name arg0 current oldpath newpath : string) :
  command_for name arg0 current = SaveAsCommand oldpath newpath ->
  oldpath = current.
Proof.
  unfold command_for.
  repeat match goal with
         | |- context [if ?b then _ else _] => destruct b
         end; intros H; inversion H; reflexivity.
Qed.

Lemma loop_calls_of (c : Command) :
  Forall (fun x => loop_call x = true) (constructor_calls c ++ [table_Execute c]).
Proof. destruct c; simpl; repeat constructor. Qed.

(** What one turn of the loop does to the state, when it is defined. *)
Lemma Run_body_shape (s s' : Process) :
  Application.Run_body s = Ok tt s' ->
  exists input out added,
    cin s = input :: cin s' /\
    editor s' = editor s /\
    cout s' = (cout s ++ Application.prompt ++ out)%string /\
    calls s' = calls s ++ added /\
    Forall (fun x => loop_call x = true) added /\
    ((heap s' = heap s /\ commandhistory s' = commandhistory s) \/
     (exists c, heap s' = heap s ++ [c] /\
                commandhistory s' = commandhistory s ++ [List.length (heap s)] /\
                forall oldpath newpath,
                  c = SaveAsCommand oldpath newpath ->
                  oldpath = filepath (editor s))).
Proof.
  destruct s as [e h hp i o cs]. intros H.
  destruct i as [|input rest]; [rewrite Run_body_eof in H; discriminate|].
  destruct (Application.TokenizeInput input) as [|name args] eqn:E.
  - rewrite Run_body_step in H. unfold bind in H.
    rewrite (ParseInput_no_token _ _ E) in H. discriminate.
  - exists input.
    destruct (dispatch_cases name args) as [Hn|[(H1 & H2 & ->)|(H1 & H2)]].
    + rewrite (Run_body_unrecognized input name args _ _ _ _ _ _ E Hn) in H.
      inversion H; subst s'. clear H.
      exists Application.not_recognized, []. simpl.
      rewrite app_nil_r. repeat split; auto.
    + rewrite (Run_body_missing input name _ _ _ _ _ _ E H2) in H.
      inversion H; subst s'. clear H.
      exists (missing_argument name ++ Application.not_recognized)%string, [].
      simpl. rewrite app_nil_r. repeat split; auto.
    + rewrite (Run_body_recognized input name args _ _ _ _ _ _ E H1 H2) in H.
      cbv zeta in H. inversion H; subst s'. clear H.
      set (c := command_for name (hd EmptyString args) (filepath e)).
      exists (text_of (table_Execute c)),
             (constructor_calls c ++ [table_Execute c]).
      simpl. repeat split; auto using loop_calls_of.
      right. exists c. repeat split.
      intros oldpath newpath Hc. exact (command_for_SaveAs _ _ _ _ _ Hc).
Qed.

(** A relation that every defined turn establishes, and that is reflexive
    and transitive, holds between the ends of every defined run. *)
Lemma Run_rel (R : Process -> Process -> Prop) :
  (forall s, R s s) ->
  (forall a b c, R a b -> R b c -> R a c) ->
  (forall s s', Application.Run_body s = Ok tt s' -> R s s') ->
  forall n s s', Application.Run n s = Ok tt s' -> R s s'.
Proof.
  intros Hrefl Htrans Hstep. induction n as [|n IH]; intros s s' H.
  - inversion H; subst. apply Hrefl.
  - simpl in H. unfold bind in H.
    destruct (Application.Run_body s) as [[] s1|] eqn:E; [|discriminate].
    eapply Htrans; [apply Hstep; exact E|apply IH; exact H].
Qed.

(** X5. The loop does not stop at the end of the input: [getline] then
    leaves the line empty and [tokens[0]] is undefined.  So a run of more
    turns than there are lines is undefined. *)
Theorem Run_past_end_of_input (n : nat) (s : Process) :
  List.length (cin s) < n -> Application.Run n s = Undefined.
Proof.
  revert s. induction n as [|n IH]; intros s Hn; [lia|].
  simpl. unfold bind.
  destruct (Application.Run_body s) as [[] s1|] eqn:E; [|reflexivity].
  apply IH. destruct (Run_body_shape _ _ E) as (input & _ & _ & Hc & _).
  rewrite Hc in Hn. simpl in Hn. lia.
Qed.

Lemma Run_past_end_of_input_witness :
  Application.Run 3 (Application.start ["open a.txt"; "close"]) = Undefined.
Proof.
  apply (Run_past_end_of_input 3 (Application.start ["open a.txt"; "close"])).
  simpl. lia.
Defined.

(** X6. A defined run of [n] turns reads [n] lines, leaves the [Editor]
    object as it was, only appends to the console and to the history, and
    enters no receiver operation besides those of [Execute] and the
    constructors: never [SetPath], [Revert] or [CloneRepository]. *)
Theorem Run_frame (n : nat) (s s' : Process) :
  Application.Run n s = Ok tt s' ->
  editor s' = editor s /\
  cin s = firstn n (cin s) ++ cin s' /\ List.length (firstn n (cin s)) = n /\
  (exists out, cout s' = (cout s ++ out)%string) /\
  (exists pushed, commandhistory s' = commandhistory s ++ pushed /\
                  List.length pushed <= n) /\
  (exists added, calls s' = calls s ++ added /\
                 Forall (fun x => loop_call x = true) added).
Proof.
  revert s s'. induction n as [|n IH]; intros s s' H.
  - inversion H; subst. simpl.
    repeat split; try (exists EmptyString; now rewrite string_app_nil_r);
      exists []; rewrite app_nil_r; auto.
  - simpl in H. unfold bind in H.
    destruct (Application.Run_body s) as [[] s1|] eqn:E; [|discriminate].
    destruct (Run_body_shape _ _ E)
      as (input & out & added & Hc & He & Ho & Hcs & Hadd & Hh).
    destruct (IH _ _ H)
      as (He' & Hc' & Hlen' & (out' & Ho') & (pushed' & Hp' & Hpl') &
          (added' & Hcs' & Hadd')).
    split; [congruence|].
    split; [rewrite Hc; simpl; f_equal; exact Hc'|].
    split; [rewrite Hc; simpl; f_equal; exact Hlen'|].
    split; [exists (Application.prompt ++ out ++ out')%string;
            rewrite Ho', Ho, !string_app_assoc; reflexivity|].
    split.
    + destruct Hh as [(_ & Hh)|(c & _ & Hh & _)].
      * exists pushed'. rewrite Hp', Hh. split; [reflexivity|lia].
      * exists (List.length (heap s) :: pushed').
        rewrite Hp', Hh, <- app_assoc. split; [reflexivity|simpl; lia].
    + exists (added ++ added'). rewrite Hcs', Hcs, app_assoc.
      split; [reflexivity|]. apply Forall_app. tauto.
Qed.

Lemma Run_frame_witness :
  editor scenario_end = editor scenario /\
  cin scenario = firstn 3 (cin scenario) ++ cin scenario_end /\
  List.length (firstn 3 (cin scenario)) = 3 /\
  (exists out, cout scenario_end = (cout scenario ++ out)%string) /\
  (exists pushed,
      commandhistory scenario_end = commandhistory scenario ++ pushed /\
      List.length pushed <= 3) /\
  (exists added, calls scenario_end = calls scenario ++ added /\
                 Forall (fun x => loop_call x = true) added).
Proof.
  apply (Run_frame 3 scenario scenario_end). vm_compute. reflexivity.
Defined.

(** X7. The loop keeps the history in step with the objects: if the history
    lists every object made so far, oldest first, it still does after any
    defined run.  From the start of the program it therefore always holds
    the pointers [0], [1], ... of all commands constructed, each once. *)
Theorem Run_keeps_in_sync (n : nat) (s s' : Process) :
  in_sync s -> Application.Run n s = Ok tt s' -> in_sync s'.
Proof.
  intros Hs H. revert Hs.
  apply (Run_rel (fun a b => in_sync a -> in_sync b)) with (n := n) (s := s)
                                                           (s' := s');
    [auto|auto| |exact H].
  clear. intros s s' E Hs. unfold in_sync in *.
  destruct (Run_body_shape _ _ E) as (_ & _ & _ & _ & _ & _ & _ & _ & Hh).
  destruct Hh as [(H1 & H2)|(c & H1 & H2 & _)].
  - congruence.
  - rewrite H2, H1, Hs, length_app. simpl.
    rewrite Nat.add_1_r, seq_S. reflexivity.
Qed.

Lemma Run_keeps_in_sync_witness : in_sync scenario_end.
Proof.
  apply (Run_keeps_in_sync 3 scenario scenario_end).
  - reflexivity.
  - vm_compute. reflexivity.
Defined.

(** X8. Inside the loop a SaveAs command never records another path than
    the one the editor keeps: if every SaveAs object holds the current path
    as [oldpath], so does every one after any defined run, since no turn
    changes the path.  From the start of the program every [oldpath] is the
    empty path. *)
Theorem Run_SaveAs_records_current (n : nat) (s s' : Process) :
  records_current s -> Application.Run n s = Ok tt s' -> records_current s'.
Proof.
  intros Hs H. revert Hs.
  apply (Run_rel (fun a b => records_current a -> records_current b))
    with (n := n) (s := s) (s' := s'); [auto|auto| |exact H].
  clear. intros s s' E Hs oldpath newpath Hin.
  destruct (Run_body_shape _ _ E) as (_ & _ & _ & _ & He & _ & _ & _ & Hh).
  rewrite He. destruct Hh as [(H1 & _)|(c & H1 & _ & Hc)].
  - rewrite H1 in Hin. eauto.
  - rewrite H1 in Hin. apply in_app_or in Hin.
    destruct Hin as [Hin|[Hin|[]]]; [eauto|]. subst c. eauto.
Qed.

Lemma Run_SaveAs_records_current_witness : records_current scenario_end.
Proof.
  apply (Run_SaveAs_records_current 3 scenario scenario_end).
  - intros oldpath newpath [].
  - vm_compute. reflexivity.
Defined.

(** ** Undoing *)

Lemma Undo_editor (c : Command) (s : Process) :
  exists s', Undo c s = Ok tt s' /\
             editor s' = mkEditor (path_after_Undo c (filepath (editor s)))
                                  (filecontent (editor s)) /\
             heap s' = heap s /\ commandhistory s' = commandhistory s.
Proof.
  destruct s as [[path content] h hp i o cs].
  destruct c; eexists; (split; [reflexivity|]); repeat split.
Qed.

Lemma path_after_Undo_command_for (name arg0 current : string) :
  path_after_Undo (command_for name arg0 current) current = current.
Proof.
  unfold command_for.
  repeat match goal with
         | |- context [if ?b then _ else _] => destruct b
         end; reflexivity.
Qed.

Lemma undo_last_valid (e : Editor) (h : list ptr) (p : ptr)
      (hp : list Command) (i : list string) (o : string) (cs : list Call)
      (c : Command) :
  nth_error hp p = Some c ->
  undo_last (mkProcess e (h ++ [p]) hp i o cs) =
  Undo c (mkProcess e h hp i o cs).
Proof.
  intros Hp. unfold undo_last, bind at 1. rewrite Pop_last.
  unfold call_Undo, bind, deref. simpl heap. rewrite Hp. reflexivity.
Qed.

(** X9. Undoing right after the turn that executed a command gives back the
    editor and the history as they were before the line was read; the object
    stays among the objects. *)
Theorem Run_body_then_undo
        (input name : string) (args : list string)
        (e : Editor) (h : list ptr) (hp : list Command) (rest : list string)
        (o : string) (cs : list Call) :
  Application.TokenizeInput input = name :: args ->
  In name recognized ->
  (needs_argument name = true -> args <> []) ->
  exists s',
    (Application.Run_body ;; undo_last) (mkProcess e h hp (input :: rest) o cs)
    = Ok tt s' /\
    editor s' = e /\ commandhistory s' = h /\
    heap s' = hp ++ [command_for name (hd EmptyString args) (filepath e)].
Proof.
  intros Htok Hin Harg. unfold bind at 1.
  rewrite (Run_body_recognized input name args _ _ _ _ _ _ Htok Hin Harg).
  cbv beta iota zeta.
  set (c := command_for name (hd EmptyString args) (filepath e)).
  rewrite (undo_last_valid _ _ _ _ _ _ _ c)
    by (rewrite nth_error_app2, Nat.sub_diag by lia; reflexivity).
  match goal with
  | |- exists s', Undo c ?s = _ /\ _ =>
      destruct (Undo_editor c s) as (s' & H1 & H2 & H3 & H4)
  end.
  exists s'. split; [exact H1|]. simpl in H2, H3, H4.
  split; [|split; assumption].
  rewrite H2. unfold c. rewrite path_after_Undo_command_for.
  destruct e; reflexivity.
Qed.

Lemma Run_body_then_undo_witness :
  exists s',
    (Application.Run_body ;; undo_last)
      (mkProcess (mkEditor "a.txt" "text") [] [] ["saveas b.txt"]
                 EmptyString []) = Ok tt s' /\
    editor s' = mkEditor "a.txt" "text" /\ commandhistory s' = [] /\
    heap s' = [] ++ [command_for "saveas" (hd EmptyString ["b.txt"])
                                 (filepath (mkEditor "a.txt" "text"))].
Proof.
  apply (Run_body_then_undo "saveas b.txt" "saveas" ["b.txt"]
           (mkEditor "a.txt" "text") [] [] [] EmptyString []).
  - reflexivity.
  - simpl. tauto.
  - discriminate.
Defined.

(** X10. A history whose pointers all denote objects can be unwound to the
    end: undoing as many times as it is long is defined, empties it and
    deletes no object; one more undo is undefined. *)
Theorem history_unwinds (s : Process) :
  history_valid s ->
  exists s', undo_times (List.length (commandhistory s)) s = Ok tt s' /\
             commandhistory s' = [] /\ heap s' = heap s /\
             undo_last s' = Undefined.
Proof.
  destruct s as [e h hp i o cs]. unfold history_valid. simpl.
  revert e i o cs.
  induction h as [|p h IH] using rev_ind; intros e i o cs Hv.
  - eexists. split; [reflexivity|]. repeat split.
  - apply Forall_app in Hv. destruct Hv as [Hv Hp].
    inversion Hp as [|? ? Hlt _]; subst.
    destruct (nth_error hp p) as [c|] eqn:Ec;
      [|apply nth_error_None in Ec; lia].
    rewrite length_app, Nat.add_1_r. simpl. unfold bind at 1.
    rewrite (undo_last_valid _ _ _ _ _ _ _ c Ec).
    destruct (Undo_editor c (mkProcess e h hp i o cs))
      as ([e1 h1 hp1 i1 o1 cs1] & H1 & _ & H3 & H4).
    simpl in H3, H4. subst hp1 h1. rewrite H1.
    apply IH. exact Hv.
Qed.

Lemma history_unwinds_witness :
  exists s', undo_times (List.length (commandhistory scenario_end)) scenario_end
             = Ok tt s' /\
             commandhistory s' = [] /\ heap s' = heap scenario_end /\
             undo_last s' = Undefined.
Proof.
  apply (history_unwinds scenario_end).
  unfold history_valid. simpl. repeat (constructor; [lia|]). constructor.
Defined.

(** X11. An object, once made by [new], is never deleted or changed: the
    pointer denotes nothing before, and denotes the same object after
    whatever is done later. *)
Theorem objects_persist
        (c : Command) (later : list Action) (s : Process)
        (command : ptr) (s2 : Process) :
  (command <- new c ;; perform_all later ;; ret command) s = Ok command s2 ->
  deref command s = Undefined /\ deref command s2 = Ok c s2.
Proof.
  intros H. unfold bind in H. destruct s as [e h hp i o cs].
  unfold new in H. simpl in H.
  destruct (perform_all later _) as [u s2'|] eqn:E2 in H; [|discriminate].
  inversion H; subst command s2'. clear H.
  destruct (keeps_perform_all later _ _ _ E2) as [more Hmore].
  simpl in Hmore. unfold deref. simpl heap. split.
  - destruct (nth_error hp (List.length hp)) eqn:En; [|reflexivity].
    assert (Hlt : List.length hp < List.length hp)
      by (apply nth_error_Some; congruence). lia.
  - rewrite Hmore, <- app_assoc, nth_error_app2, Nat.sub_diag by lia.
    reflexivity.
Qed.

Lemma objects_persist_witness :
  deref 0 (Application.start ["close"]) = Undefined /\
  deref 0 persist_state = Ok PrintCommand persist_state.
Proof.
  apply (objects_persist PrintCommand persist_later
           (Application.start ["close"]) 0 persist_state).
  vm_compute. reflexivity.
Defined.

(** ** Arguments of a line *)

Lemma bind_ret_l {A B} (a : A) (k : A -> M B) : bind (ret a) k = k a.
Proof. reflexivity. Qed.

(** X12. Only the command name and, for saveas and open, the first argument
    of a line count: two lines with the same name whose first arguments
    agree (or, for the other names, any arguments) give the same turn. *)
Theorem extra_tokens_ignored
        (input1 input2 name : string) (args1 args2 : list string)
        (e : Editor) (h : list ptr) (hp : list Command) (rest : list string)
        (o : string) (cs : list Call) :
  Application.TokenizeInput input1 = name :: args1 ->
  Application.TokenizeInput input2 = name :: args2 ->
  (needs_argument name = true -> hd_error args1 = hd_error args2) ->
  Application.Run_body (mkProcess e h hp (input1 :: rest) o cs) =
  Application.Run_body (mkProcess e h hp (input2 :: rest) o cs).
Proof.
  intros H1 H2 Hargs. rewrite !Run_body_step. unfold bind at 1 3.
  assert (Hparse : forall s, Application.ParseInput input1 s =
                             Application.ParseInput input2 s).
  { intros s. unfold Application.ParseInput. rewrite H1, H2.
    cbn [Application.at0 Application.erase_begin].
    rewrite !bind_ret_l.
    unfold needs_argument in Hargs.
    destruct (name =? "save"); [reflexivity|].
    destruct (name =? "saveas");
      [specialize (Hargs eq_refl);
       destruct args1, args2; simpl in Hargs; try discriminate;
       inversion Hargs; reflexivity|].
    destruct (name =? "open");
      [specialize (Hargs eq_refl);
       destruct args1, args2; simpl in Hargs; try discriminate;
       inversion Hargs; reflexivity|].
    reflexivity. }
  rewrite Hparse. reflexivity.
Qed.

Lemma extra_tokens_ignored_witness :
  Application.Run_body (Application.start ["open a.txt"]) =
  Application.Run_body (Application.start ["  open  a.txt  and more"]).
Proof.
  apply (extra_tokens_ignored "open a.txt" "  open  a.txt  and more" "open"
           ["a.txt"] ["a.txt"; "and"; "more"]
           (mkEditor EmptyString EmptyString) [] [] [] EmptyString []).
  - reflexivity.
  - reflexivity.
  - reflexivity.
Defined.

(** ** Popping and pushing back *)

(** X13. On a non-empty history, pushing back the command that [Pop]
    returned restores the state. *)
Theorem Pop_then_Push (s : Process) :
  commandhistory s <> [] ->
  (command <- CommandHistory.Pop ;; CommandHistory.Push command) s = Ok tt s.
Proof.
  destruct s as [e h hp i o cs]. simpl. intros Hne.
  destruct h as [|p h _] using rev_ind; [contradiction|].
  unfold bind. rewrite Pop_last. apply Push_state.
Qed.

Lemma Pop_then_Push_witness :
  (command <- CommandHistory.Pop ;; CommandHistory.Push command) scenario_end
  = Ok tt scenario_end.
Proof. apply (Pop_then_Push scenario_end). discriminate. Defined.

